(** * Verification of [services/model_service.py]

    A shallow embedding of the [ModelService] class: the SHA-1 based
    deterministic stub predictor, the detection-to-verdict aggregation that
    [_predict_with_yolo] performs on the detector's boxes, the guarded
    class-name lookup, and the load-with-fallback bookkeeping of [__init__]
    and [_load_model].

    Numbers.  Python [int] is [Z].  Python [float] is modelled by exact
    rationals [Q]: the literals [0.7], [0.3] and [0.5] are [7/10], [3/10]
    and [1/2], sums and quotients are exact, and [round(x, 3)] rounds the
    exact value half-to-even.  Module [Binary64] runs the stub on IEEE
    binary64 numbers as well, and [binary64_stub_agrees] shows that it takes
    the same branch and produces the same three decimals on every input.
    The aggregation is given on binary64 numbers too
    ([Binary64.aggregate]), for both summations that the builtin [sum]
    performs (from the left up to CPython 3.11, compensated from 3.12 on):
    its label is the one of the exact aggregation, while its confidence
    rounds the float mean, which can differ from the rounding of the exact
    mean in the last digit.

    Strings.  Class labels are [string]s of 8-bit characters; [str.lower] is
    the ASCII lower-casing that Python applies to ASCII text.

    Exceptions.  A computation that may raise is a value of [exn + A].  Only
    subclasses of [Exception] are modelled: both handlers of the source are
    [except Exception] (or narrower).

    The detection library, the image decoder and the [random] module are
    not part of the source; they enter as the records [YOLO] and [Env] and
    as the state [Globals]. *)

From Stdlib Require Import ZArith QArith Qround Lia Lqa Bool List.
From Stdlib Require Import Ascii String Strings.Byte DecimalString.
From Stdlib Require Import PrimFloat FloatOps FloatAxioms SpecFloat Uint63.
From Stdlib Require Import Permutation.
Import ListNotations.

Open Scope Z_scope.

(** ** Bytes and SHA-1 ([hashlib.sha1]) *)

Module Sha1.

Definition byte_to_Z (b : byte) : Z := Z.of_N (Byte.to_N b).

Definition byte_of_Z (z : Z) : byte :=
  match Byte.of_N (Z.to_N (z mod 256)) with
  | Some b => b
  | None => x00
  end.

Definition wrap32 (x : Z) : Z := x mod 2 ^ 32.

Definition add32 (x y : Z) : Z := wrap32 (x + y).

Definition rotl32 (n x : Z) : Z :=
  wrap32 (Z.lor (Z.shiftl x n) (Z.shiftr x (32 - n))).

Definition not32 (x : Z) : Z := Z.lxor x 0xFFFFFFFF.

(** Big-endian serialisation of a [w]-byte quantity. *)
Fixpoint be_bytes (w : nat) (x : Z) : list Z :=
  match w with
  | O => []
  | S w' => Z.shiftr x (8 * Z.of_nat w') mod 256 :: be_bytes w' x
  end.

Definition be_word (bs : list Z) : Z :=
  fold_left (fun acc b => acc * 256 + b) bs 0.

(** Message padding: a 1 bit, zeros up to 56 mod 64, the bit length on
    eight bytes. *)
Definition pad (msg : list Z) : list Z :=
  let len := Z.of_nat (List.length msg) in
  let zeros := Z.to_nat ((55 - len) mod 64) in
  msg ++ 0x80 :: repeat 0 zeros ++ be_bytes 8 (8 * len mod 2 ^ 64).

Fixpoint chunks (fuel : nat) (n : nat) (l : list Z) : list (list Z) :=
  match fuel, l with
  | O, _ | _, [] => []
  | S fuel', _ => firstn n l :: chunks fuel' n (skipn n l)
  end.

Definition words_of_block (blk : list Z) : list Z :=
  map be_word (chunks 16 4 blk).

(** Message schedule: [w] holds the words produced so far, newest first. *)
Fixpoint schedule (k : nat) (w : list Z) : list Z :=
  match k with
  | O => w
  | S k' =>
      let x := Z.lxor (Z.lxor (nth 2 w 0) (nth 7 w 0))
                      (Z.lxor (nth 13 w 0) (nth 15 w 0)) in
      schedule k' (rotl32 1 x :: w)
  end.

Definition expand (blk : list Z) : list Z :=
  rev (schedule 64 (rev (words_of_block blk))).

Definition state : Type := Z * Z * Z * Z * Z.

Definition f_k (t : nat) (b c d : Z) : Z * Z :=
  if (t <? 20)%nat then
    (Z.lor (Z.land b c) (Z.land (not32 b) d), 0x5A827999)
  else if (t <? 40)%nat then
    (Z.lxor (Z.lxor b c) d, 0x6ED9EBA1)
  else if (t <? 60)%nat then
    (Z.lor (Z.lor (Z.land b c) (Z.land b d)) (Z.land c d), 0x8F1BBCDC)
  else
    (Z.lxor (Z.lxor b c) d, 0xCA62C1D6).

Definition round_step (t : nat) (wt : Z) (s : state) : state :=
  let '(a, b, c, d, e) := s in
  let '(f, k) := f_k t b c d in
  let temp := add32 (add32 (add32 (add32 (rotl32 5 a) f) e) k) wt in
  (temp, a, rotl32 30 b, c, d).

Fixpoint rounds (t : nat) (ws : list Z) (s : state) : state :=
  match ws with
  | [] => s
  | wt :: ws' => rounds (S t) ws' (round_step t wt s)
  end.

Definition compress (h : state) (blk : list Z) : state :=
  let '(h0, h1, h2, h3, h4) := h in
  let '(a, b, c, d, e) := rounds 0 (expand blk) h in
  (add32 h0 a, add32 h1 b, add32 h2 c, add32 h3 d, add32 h4 e).

Definition init : state :=
  (0x67452301, 0xEFCDAB89, 0x98BADCFE, 0x10325476, 0xC3D2E1F0).

Definition digest (image_bytes : list byte) : list byte :=
  let padded := pad (map byte_to_Z image_bytes) in
  let blocks := chunks (List.length padded) 64 padded in
  let '(h0, h1, h2, h3, h4) := fold_left compress blocks init in
  map byte_of_Z
    (be_bytes 4 h0 ++ be_bytes 4 h1 ++ be_bytes 4 h2 ++
     be_bytes 4 h3 ++ be_bytes 4 h4).

End Sha1.

(** [int.from_bytes(bs, "big")]. *)
Definition int_from_bytes_big (bs : list byte) : Z :=
  fold_left (fun acc b => acc * 256 + Sha1.byte_to_Z b) bs 0.

(** ** Python values used by the service *)

(** Exceptions (all subclasses of [Exception]). *)
Inductive exn : Type :=
| ImportError
| IndexError
| AttributeError
| OtherException (what : string).

(** A computation that returns a value or raises. *)
Definition M (A : Type) : Type := (exn + A)%type.

Definition ret {A} (a : A) : M A := inr a.
Definition raise {A} (e : exn) : M A := inl e.
Definition bind {A B} (m : M A) (k : A -> M B) : M B :=
  match m with
  | inl e => inl e
  | inr a => k a
  end.

Notation "x <- m ;; k" := (bind m (fun x => k))
  (at level 61, m at next level, right associativity).

(** [try: body except Exception: handler]. *)
Definition try_except {A} (body : M A) (handler : exn -> A) : A :=
  match body with
  | inr a => a
  | inl e => handler e
  end.

Fixpoint mapM {A B} (f : A -> M B) (l : list A) : M (list B) :=
  match l with
  | [] => ret []
  | a :: l' => b <- f a ;; bs <- mapM f l' ;; ret (b :: bs)
  end.

(** [l[i]] on a Python list: negative indices count from the end, and an
    index outside [-len(l), len(l))] raises [IndexError]. *)
Definition getitem {A} (l : list A) (i : Z) : M A :=
  let n := Z.of_nat (List.length l) in
  let j := if i <? 0 then i + n else i in
  if (j <? 0) || (n <=? j) then raise IndexError
  else match nth_error l (Z.to_nat j) with
       | Some a => ret a
       | None => raise IndexError
       end.

(** [str(i)] for an int. *)
Definition str (i : Z) : string := NilZero.string_of_int (Z.to_int i).

(** [int(c)]: truncation towards zero. *)
Definition int (c : Q) : Z := Z.quot (Qnum c) (Zpos (Qden c)).

(** [list.count]. *)
Definition count (classes : list string) (x : string) : Z :=
  Z.of_nat (count_occ string_dec classes x).

(** [sum] of a list of numbers. *)
Definition sum (l : list Q) : Q := fold_left Qplus l 0%Q.

(** Rounding to the nearest integer, ties to the even one. *)
Definition round_half_even (x : Q) : Z :=
  let f := Qfloor x in
  match (x - inject_Z f ?= 1 # 2)%Q with
  | Lt => f
  | Gt => f + 1
  | Eq => if Z.even f then f else f + 1
  end.

(** [round(x, ndigits)] for [ndigits >= 0]. *)
Definition round (x : Q) (ndigits : nat) : Q :=
  let p := Z.to_pos (10 ^ Z.of_nat ndigits) in
  Qmake (round_half_even (x * inject_Z (Zpos p))) p.

(** [str.lower] on ASCII text. *)
Definition lower_ascii (c : ascii) : ascii :=
  let n := nat_of_ascii c in
  if (65 <=? n)%nat && (n <=? 90)%nat then ascii_of_nat (n + 32) else c.

Fixpoint lower (s : string) : string :=
  match s with
  | EmptyString => EmptyString
  | String c s' => String (lower_ascii c) (lower s')
  end.

(** [needle in s] on strings. *)
Fixpoint contains (needle s : string) : bool :=
  String.prefix needle s ||
  match s with
  | EmptyString => false
  | String _ s' => contains needle s'
  end.

(** [x < y] on numbers. *)
Definition Qltb (x y : Q) : bool := negb (Qle_bool y x).

(** ** The detector and its results (external collaborators) *)

(** The pixel array [np.array(image)]: rows of RGB triples. *)
Definition Frame : Type := list (list (Z * Z * Z)).

(** [results.boxes]: the class indices [cls] and the scores [conf]. *)
Record Boxes : Type := {
  cls : list Q;
  conf : list Q
}.

(** One element of the list the detector returns.  [names] is [None] when
    the attribute is missing, [boxes] is [None] when it is Python's [None].
    The name table is a list, as the service's own default [[]] is; a dict
    with the keys [0 .. n-1] answers the same for every index [i >= 0].
    For a negative index a list counts from its end or raises
    [IndexError] and a dict raises [KeyError]; nothing below is stated
    about which entry a negative index selects. *)
Record Results : Type := {
  names : option (list string);
  boxes : option Boxes
}.

(** A loaded detector: calling it on a frame, and reading its [names]
    attribute ([inr None] when the attribute is missing).  Both run code of
    the detection library and may raise. *)
Record YOLO : Type := {
  call : Frame -> M (list Results);
  model_names : M (option (list string))
}.

(** What the service finds around it: the import of the detection library,
    the compatibility patch of [torch.load], the constructor [YOLO(path)]
    ([None] for [YOLO()]), and image decoding
    ([Image.open(...).convert("RGB")] followed by [np.array]). *)
Record Env : Type := {
  import_ultralytics : M unit;
  patch_torch_load : M unit;
  YOLO_ : option string -> M YOLO;
  Image_open : list byte -> M Frame
}.

(** The state of the [random] module: the seed it was last given. *)
Record Globals : Type := {
  random_seed : option Z
}.

(** ** The service *)

Local Open Scope string_scope.

Record Verdict : Type := {
  label : string;
  confidence : Q
}.

Record ModelService : Type := {
  device : string;
  model : option YOLO;
  weights_path : option string;
  class_names : list string
}.

Definition set_model (self : ModelService) (m : option YOLO) : ModelService :=
  {| device := device self; model := m;
     weights_path := weights_path self; class_names := class_names self |}.

Definition set_class_names (self : ModelService) (ns : list string)
  : ModelService :=
  {| device := device self; model := model self;
     weights_path := weights_path self; class_names := ns |}.

(** The [try] block of [_load_model] (lines 30-52): the object as the block
    leaves it, and the exception that ended it, if any. *)
Definition load_body (env : Env) (self : ModelService)
  : ModelService * option exn :=
  match import_ultralytics env with
  | inl e => (self, Some e)
  | inr _ =>
      (* the inner try (lines 31-47) swallows every exception *)
      let _ := try_except (patch_torch_load env) (fun _ => tt) in
      match YOLO_ env (weights_path self) with
      | inl e => (self, Some e)
      | inr m =>
          let self := set_model self (Some m) in
          match model_names m with
          | inl e => (self, Some e)
          | inr ns =>
              (set_class_names self
                 match ns with Some l => l | None => [] end, None)
          end
      end
  end.

(** [_load_model]: the block and its two handlers (lines 53-57). *)
Definition _load_model (env : Env) (self : ModelService) : ModelService :=
  match load_body env self with
  | (self, None) => self
  | (self, Some ImportError) => self
  | (self, Some _) => set_model self None
  end.

(** [__init__]: seeds the [random] module, sets the fields, loads. *)
Definition __init__ (env : Env) (weights_path : option string) (seed : Z)
    (device : string) (g : Globals) : ModelService * Globals :=
  let g := {| random_seed := Some seed |} in
  let self :=
    {| device := device;
       model := None;
       weights_path :=
         match weights_path with
         | Some EmptyString | None => None
         | Some p => Some p
         end;
       class_names := [] |} in
  (_load_model env self, g).

(** [_predict_stub] (lines 101-115). *)
Definition _predict_stub (self : ModelService) (image_bytes : list byte)
  : Verdict :=
  let digest := Sha1.digest image_bytes in
  let score := (inject_Z (int_from_bytes_big (firstn 2 digest)) / 65535)%Q in
  if Qltb (7 # 10) score then
    {| label := "helmet"; confidence := round score 3 |}
  else if Qltb score (3 # 10) then
    {| label := "no_helmet"; confidence := round (1 - score) 3 |}
  else
    {| label := "uncertain"; confidence := round (1 # 2) 3 |}.

(** The class a raw class name is counted under (lines 77-83). *)
Definition normalize (c : string) : string :=
  let c_lower := lower c in
  if string_dec c_lower "head" then "person"
  else if string_dec c_lower "person" then "person"
  else if contains "helmet" c_lower then "helmet"
  else c_lower.

(** The aggregation of [_predict_with_yolo] (lines 75-96): from the raw
    class names and the scores of the boxes to the verdict. *)
Definition aggregate (classes_raw : list string) (conf_scores : list Q)
  : Verdict :=
  let classes := map normalize classes_raw in
  let person_count := count classes "person" in
  let helmet_count := count classes "helmet" in
  let violation_count := Z.max (person_count - helmet_count) 0 in
  let label :=
    if (0 <? person_count)%Z then
      if (0 <? violation_count)%Z then "no_helmet" else "helmet"
    else "uncertain" in
  let confidence :=
    match conf_scores with
    | [] => (1 # 2)%Q
    | _ => (sum conf_scores / inject_Z (Z.of_nat (List.length conf_scores)))%Q
    end in
  {| label := label; confidence := round confidence 3 |}.

(** The class name of index [i] (the element expression of line 73). *)
Definition class_raw (names : list string) (i : Z) : M string :=
  if (i <? Z.of_nat (List.length names))%Z then getitem names i
  else ret (str i).

(** The [try] block of [_predict_with_yolo] (lines 67-96). *)
Definition yolo_body (env : Env) (self : ModelService) (m : YOLO)
    (image_bytes : list byte) : M Verdict :=
  frame <- Image_open env image_bytes ;;
  rs <- call m frame ;;
  results <- getitem rs 0 ;;
  let names :=
    match names results with
    | Some ((_ :: _) as ns) => ns
    | _ => class_names self
    end in
  classes_raw <- match boxes results with
                 | Some b => mapM (fun c => class_raw names (int c)) (cls b)
                 | None => raise AttributeError
                 end ;;
  let conf_scores :=
    match boxes results with
    | Some b => conf b
    | None => []
    end in
  ret (aggregate classes_raw conf_scores).

Definition _predict_with_yolo (env : Env) (self : ModelService) (m : YOLO)
    (image_bytes : list byte) : Verdict :=
  try_except (yolo_body env self m image_bytes)
    (fun _ => _predict_stub self image_bytes).

Definition predict (env : Env) (self : ModelService)
    (image_bytes : list byte) : Verdict :=
  match model self with
  | Some m => _predict_with_yolo env self m image_bytes
  | None => _predict_stub self image_bytes
  end.

(** ** The stub and the aggregation on IEEE binary64 numbers *)

Module Binary64.

(** Lines 103-115 of [_predict_stub], from the 16-bit number on. *)
Definition exact_at (n : Z) : Verdict :=
  let score := (inject_Z n / 65535)%Q in
  if Qltb (7 # 10) score then
    {| label := "helmet"; confidence := round score 3 |}
  else if Qltb score (3 # 10) then
    {| label := "no_helmet"; confidence := round (1 - score) 3 |}
  else
    {| label := "uncertain"; confidence := round (1 # 2) 3 |}.

Local Open Scope float_scope.

(** An int as a float; exact below 2^53. *)
Definition of_int (z : Z) : float :=
  if (z <? 0)%Z then - of_uint63 (Uint63.of_Z (- z))
  else of_uint63 (Uint63.of_Z z).

(** The rational a finite float stands for. *)
Definition exact (x : float) : option Q :=
  match Prim2SF x with
  | S754_zero _ => Some 0%Q
  | S754_finite s m e =>
      let v := if s then Zneg m else Zpos m in
      Some (if (0 <=? e)%Z then inject_Z (v * 2 ^ e)
            else Qmake v (Z.to_pos (2 ^ (- e))))
  | _ => None
  end.

(** [a / 2^s] rounded to the nearest integer, ties to the even one, for
    [s > 0]: quotient and remainder by shifts. *)
Definition round_half_even_dyadic (a s : Z) : Z :=
  let f := Z.shiftr a s in
  let r := (a - Z.shiftl f s)%Z in
  match (2 * r ?= Z.shiftl 1 s)%Z with
  | Lt => f
  | Gt => (f + 1)%Z
  | Eq => if Z.even f then f else (f + 1)%Z
  end.

(** [round(x, ndigits)]: the value of [x] is rounded exactly, ties to
    even, to a decimal of [ndigits] places, and the float nearest to that
    decimal is returned.  Both the decimal's numerator and the power of
    ten are exact floats here, and their quotient is correctly rounded. *)
Definition round (x : float) (ndigits : nat) : float :=
  let p := (10 ^ Z.of_nat ndigits)%Z in
  match Prim2SF x with
  | S754_zero _ => of_int 0 / of_int p
  | S754_finite s m e =>
      let v := if s then Zneg m else Zpos m in
      let k := if (0 <=? e)%Z then (v * 2 ^ e * p)%Z
               else round_half_even_dyadic (v * p) (- e) in
      of_int k / of_int p
  | _ => x
  end.

(** The float nearest to a decimal [k # 10^d]. *)
Definition of_decimal (q : Q) : float :=
  of_int (Qnum q) / of_int (Zpos (Qden q)).

(** [_predict_stub] (lines 101-115) on floats. *)
#[warnings="-inexact-float"]
Definition _predict_stub (image_bytes : list byte) : string * float :=
  let digest := Sha1.digest image_bytes in
  let score := of_int (int_from_bytes_big (firstn 2 digest)) / 65535 in
  if 0.7 <? score then
    ("helmet"%string, round score 3)
  else if score <? 0.3 then
    ("no_helmet"%string, round (1 - score) 3)
  else
    ("uncertain"%string, round 0.5 3).

(** Lines 103-115 on floats, from the 16-bit number on. *)
#[warnings="-inexact-float"]
Definition float_at (n : Z) : string * float :=
  let score := of_int n / 65535 in
  if 0.7 <? score then
    ("helmet"%string, round score 3)
  else if score <? 0.3 then
    ("no_helmet"%string, round (1 - score) 3)
  else
    ("uncertain"%string, round 0.5 3).

(** The float verdict [w] is the exact verdict [v]: same label, and the
    float nearest to the same three decimals. *)
Definition agree (v : Verdict) (w : string * float) : bool :=
  String.eqb (label v) (fst w)
  && Leibniz.eqb (snd w) (of_decimal (confidence v)).

Definition bytes256 : list Z := map Z.of_nat (seq 0 256).

(** The builtin [sum] on a list of floats.  What it returns depends on the
    interpreter.  CPython up to 3.11 adds from the left, starting at 0. *)
Definition sum_left (l : list float) : float := fold_left PrimFloat.add l 0.

(** CPython from 3.12 on compensates the additions (Neumaier): next to the
    running sum [f] it keeps the accumulated rounding error [c] of the
    additions made so far. *)
Definition compensate (fc : float * float) (x : float) : float * float :=
  let (f, c) := fc in
  let t := f + x in
  (t, if abs x <=? abs f then c + ((f - t) + x) else c + ((x - t) + f)).

(** The first float is added to the integer 0 as such; the compensation
    starts with the second, and is added at the end when it is finite and
    not 0. *)
Definition sum_compensated (l : list float) : float :=
  match l with
  | [] => 0
  | x :: l' =>
      let (f, c) := fold_left compensate l' (0 + x, 0) in
      if (negb (c =? 0) && is_finite c)%bool then f + c else f
  end.


(** The aggregation of [_predict_with_yolo] (lines 75-96) on floats, for
    the builtin [sum] of the interpreter. *)
Definition aggregate (sum : list float -> float)
    (classes_raw : list string) (conf_scores : list float)
  : string * float :=
  let classes := map normalize classes_raw in
  let person_count := count classes "person" in
  let helmet_count := count classes "helmet" in
  let violation_count := Z.max (person_count - helmet_count) 0 in
  let label :=
    if (0 <? person_count)%Z then
      if (0 <? violation_count)%Z then "no_helmet"%string
      else "helmet"%string
    else "uncertain"%string in
  let confidence :=
    match conf_scores with
    | [] => 0.5
    | _ => sum conf_scores / of_int (Z.of_nat (List.length conf_scores))
    end in
  (label, round confidence 3).


End Binary64.

(** ** Notions of the specification *)

(** The counts of the aggregation, as functions of the raw class names. *)
Definition person_count (classes_raw : list string) : Z :=
  count (map normalize classes_raw) "person".

Definition helmet_count (classes_raw : list string) : Z :=
  count (map normalize classes_raw) "helmet".

Definition violation_count (classes_raw : list string) : Z :=
  Z.max (person_count classes_raw - helmet_count classes_raw) 0.


(** [needle] occurs in [s]. *)
Definition substring_of (needle s : string) : Prop :=
  exists pre post, s = pre ++ needle ++ post.

Definition valid_label (l : string) : Prop :=
  l = "helmet" \/ l = "no_helmet" \/ l = "uncertain".

(** A number with at most three decimals. *)
Definition three_decimals (c : Q) : Prop := exists k : Z, c = (k # 1000)%Q.

(** A verdict as the data model wants it: one of the three labels, and a
    confidence in [0,1] with three decimals. *)
Definition valid_Verdict (v : Verdict) : Prop :=
  valid_label (label v) /\
  exists k : Z, (0 <= k <= 1000)%Z /\ confidence v = (k # 1000)%Q.


Definition in_unit_interval (c : Q) : Prop := (0 <= c <= 1)%Q.


(** ** Concrete surroundings *)

(** A detector that finds one bare head in every frame. *)
Definition one_head : YOLO :=
  {| call := fun _ =>
       ret [ {| names := Some ["helmet"; "head"];
                boxes := Some {| cls := [1%Q]; conf := [(3 # 5)%Q] |} |} ];
     model_names := ret (Some ["helmet"; "head"]) |}.

(** A detector whose only box carries the class index -3. *)
Definition stray_index : YOLO :=
  {| call := fun _ =>
       ret [ {| names := Some ["helmet"; "head"];
                boxes := Some {| cls := [(-3)%Q]; conf := [(3 # 5)%Q] |} |} ];
     model_names := ret (Some ["helmet"; "head"]) |}.

(** A machine on which the detection library loads and decodes. *)
Definition working_env : Env :=
  {| import_ultralytics := ret tt;
     patch_torch_load := ret tt;
     YOLO_ := fun _ => ret one_head;
     Image_open := fun _ => ret [] |}.

(** A machine without the detection library. *)
Definition no_ultralytics : Env :=
  {| import_ultralytics := raise ImportError;
     patch_torch_load := ret tt;
     YOLO_ := fun _ => raise ImportError;
     Image_open := fun _ => raise (OtherException "UnidentifiedImageError") |}.

(** A detector built from exported weights whose runtime backend is not
    installed: the constructor only records the path, and the backend is
    imported when the model is first used, by reading [names] or by
    calling it. *)
Definition backend_missing : YOLO :=
  {| call := fun _ => raise ImportError;
     model_names := raise ImportError |}.

Definition backend_missing_env : Env :=
  {| import_ultralytics := ret tt;
     patch_torch_load := ret tt;
     YOLO_ := fun _ => ret backend_missing;
     Image_open := fun _ => ret [] |}.

Definition fresh_globals : Globals := {| random_seed := None |}.

(** The service as [ModelService()] builds it when the library is missing. *)
Definition stub_only : ModelService :=
  fst (__init__ no_ultralytics None 42 "cpu" fresh_globals).

(** The service as [ModelService("best.onnx")] builds it when the backend of
    the exported weights is missing. *)
Definition half_loaded : ModelService :=
  fst (__init__ backend_missing_env (Some "best.onnx") 42 "cpu" fresh_globals).

(** ** Notions for the lookup and the synthesized labels *)

(** The characters of a decimal numeral. *)
Definition numeral_char (a : ascii) : bool :=
  match a with
  | "-" | "0" | "1" | "2" | "3" | "4" | "5" | "6" | "7" | "8" | "9" => true
  | _ => false
  end%char.

Fixpoint forall_chars (p : ascii -> bool) (s : string) : bool :=
  match s with
  | EmptyString => true
  | String a s' => p a && forall_chars p s'
  end.

(** The name table that line 71 selects. *)
Definition name_table (self : ModelService) (results : Results)
  : list string :=
  match names results with
  | Some ((_ :: _) as ns) => ns
  | _ => class_names self
  end.

(** The label of a class index that is not negative: the entry of the
    table, or the digits of the index past its end. *)
Definition label_of_index (names : list string) (i : Z) : string :=
  nth (Z.to_nat i) names (str i).

(** ** Properties of rounding *)

Section Rounding.

Local Open Scope Q_scope.

Lemma round_half_even_ge (k : Z) (x : Q) :
  inject_Z k <= x -> (k <= round_half_even x)%Z.
Proof.
  intros Hk.
  assert (Hf : (k <= Qfloor x)%Z).
  { rewrite <- (Qfloor_Z k). now apply Qfloor_resp_le. }
  unfold round_half_even.
  destruct (x - inject_Z (Qfloor x) ?= 1 # 2);
    [destruct (Z.even (Qfloor x)) | | ]; lia.
Qed.

Lemma round_half_even_le (k : Z) (x : Q) :
  x <= inject_Z k -> (round_half_even x <= k)%Z.
Proof.
  intros Hk.
  assert (Hf : (Qfloor x <= k)%Z).
  { rewrite <- (Qfloor_Z k). now apply Qfloor_resp_le. }
  unfold round_half_even.
  destruct (Z.eq_dec (Qfloor x) k) as [E | N].
  - (* x is the integer k itself: no fractional part *)
    assert (Hx : x - inject_Z (Qfloor x) == 0).
    { rewrite E. pose proof (Qfloor_le x) as Hl. rewrite E in Hl.
      apply Qle_antisym; lra. }
    rewrite Hx. simpl. exact Hf.
  - destruct (x - inject_Z (Qfloor x) ?= 1 # 2);
      [destruct (Z.even (Qfloor x)) | | ]; lia.
Qed.

Lemma round_half_even_comp (x y : Q) :
  x == y -> round_half_even x = round_half_even y.
Proof.
  intros E. unfold round_half_even.
  rewrite (Qfloor_comp _ _ E).
  now rewrite E.
Qed.

Lemma round_comp (x y : Q) (n : nat) : x == y -> round x n = round y n.
Proof.
  intros E. unfold round. f_equal.
  apply round_half_even_comp. now rewrite E.
Qed.

Lemma round3_unfold (x : Q) :
  round x 3 = (round_half_even (x * 1000) # 1000).
Proof. reflexivity. Qed.

(** Rounding to three decimals keeps a number between two bounds that
    are themselves multiples of 1/1000. *)
Lemma round3_ge (k : Z) (x : Q) : (k # 1000) <= x -> (k # 1000) <= round x 3.
Proof.
  intros H. rewrite round3_unfold.
  assert (Hk : (k <= round_half_even (x * 1000))%Z).
  { apply round_half_even_ge.
    unfold Qle in *. simpl in *. lia. }
  unfold Qle. simpl. lia.
Qed.

Lemma round3_le (k : Z) (x : Q) : x <= (k # 1000) -> round x 3 <= (k # 1000).
Proof.
  intros H. rewrite round3_unfold.
  assert (Hk : (round_half_even (x * 1000) <= k)%Z).
  { apply round_half_even_le.
    unfold Qle in *. simpl in *. lia. }
  unfold Qle. simpl. lia.
Qed.

Lemma round3_unit_interval (x : Q) :
  0 <= x <= 1 ->
  exists k : Z, (0 <= k <= 1000)%Z /\ round x 3 = (k # 1000).
Proof.
  intros [H0 H1].
  exists (round_half_even (x * 1000)). split; [ | apply round3_unfold].
  split.
  - apply round_half_even_ge. change (0 <= x * 1000). lra.
  - apply round_half_even_le. change (x * 1000 <= 1000). lra.
Qed.

Lemma round3_half : round (1 # 2) 3 == 1 # 2.
Proof. reflexivity. Qed.

End Rounding.

(** ** Properties of the string operations *)

Section Strings.

Local Open Scope string_scope.

Lemma prefix_iff (p s : string) :
  String.prefix p s = true <-> exists post, s = p ++ post.
Proof.
  revert s. induction p as [ | a p IH]; intros s.
  - split; [intros _; now exists s | intros _; now destruct s].
  - destruct s as [ | b s]; simpl.
    + split; [discriminate | intros [post H]; discriminate].
    + destruct (ascii_dec a b) as [-> | N].
      * rewrite IH. split; intros [post H]; exists post.
        -- now rewrite H.
        -- now injection H.
      * split; [discriminate | ].
        intros [post H]. injection H as E _. congruence.
Qed.

(** [contains] decides the substring relation. *)
Lemma contains_iff (needle s : string) :
  contains needle s = true <-> exists pre post, s = pre ++ needle ++ post.
Proof.
  induction s as [ | b s IH].
  - cbn [contains]. rewrite orb_false_r, prefix_iff. split.
    + intros [post H]. now exists "", post.
    + intros [pre [post H]]. destruct pre; [now exists post | discriminate].
  - cbn [contains]. rewrite orb_true_iff, prefix_iff, IH. split.
    + intros [[post H] | [pre [post H]]].
      * now exists "", post.
      * exists (String b pre), post. simpl. now rewrite H.
    + intros [pre [post H]]. destruct pre as [ | c pre].
      * left. now exists post.
      * right. exists pre, post. simpl in H. now injection H.
Qed.

Lemma normalize_person (c : string) :
  lower c = "head" \/ lower c = "person" -> normalize c = "person".
Proof.
  unfold normalize. intros [E | E]; rewrite E; reflexivity.
Qed.

Lemma normalize_helmet (c : string) :
  lower c <> "head" -> lower c <> "person" ->
  contains "helmet" (lower c) = true -> normalize c = "helmet".
Proof.
  unfold normalize. intros N1 N2 H.
  destruct (string_dec (lower c) "head"); [contradiction | ].
  destruct (string_dec (lower c) "person"); [contradiction | ].
  now rewrite H.
Qed.

Lemma normalize_other (c : string) :
  lower c <> "head" -> lower c <> "person" ->
  contains "helmet" (lower c) = false -> normalize c = lower c.
Proof.
  unfold normalize. intros N1 N2 H.
  destruct (string_dec (lower c) "head"); [contradiction | ].
  destruct (string_dec (lower c) "person"); [contradiction | ].
  now rewrite H.
Qed.

Lemma count_cons (x y : string) (l : list string) :
  count (x :: l) y = ((if string_dec x y then 1 else 0) + count l y)%Z.
Proof.
  unfold count. simpl. destruct (string_dec x y); lia.
Qed.

Lemma count_nonneg (l : list string) (y : string) : (0 <= count l y)%Z.
Proof. unfold count. lia. Qed.

End Strings.

(** ** Properties of the stub predictor *)

Section Stub.

Local Open Scope Q_scope.

Lemma Qltb_lt (x y : Q) : Qltb x y = true <-> x < y.
Proof.
  unfold Qltb. rewrite negb_true_iff, <- not_true_iff_false, Qle_bool_iff.
  split; [apply Qnot_le_lt | apply Qlt_not_le].
Qed.

Lemma Qltb_ge (x y : Q) : Qltb x y = false <-> y <= x.
Proof.
  unfold Qltb. now rewrite negb_false_iff, Qle_bool_iff.
Qed.

Lemma byte_to_Z_range (b : byte) : (0 <= Sha1.byte_to_Z b <= 255)%Z.
Proof.
  unfold Sha1.byte_to_Z. pose proof (Byte.to_N_bounded b). lia.
Qed.

(** The digest has (at least) the two bytes the stub reads. *)
Lemma digest_two_bytes (image_bytes : list byte) :
  exists b0 b1 rest, Sha1.digest image_bytes = b0 :: b1 :: rest.
Proof.
  unfold Sha1.digest.
  destruct (fold_left Sha1.compress _ Sha1.init) as [[[[h0 h1] h2] h3] h4].
  cbn [Sha1.be_bytes app map]. eauto.
Qed.

Lemma digest_length (image_bytes : list byte) :
  List.length (Sha1.digest image_bytes) = 20%nat.
Proof.
  unfold Sha1.digest.
  destruct (fold_left Sha1.compress _ Sha1.init) as [[[[h0 h1] h2] h3] h4].
  reflexivity.
Qed.

Lemma int_from_bytes_big_2 (b0 b1 : byte) (rest : list byte) :
  int_from_bytes_big (firstn 2 (b0 :: b1 :: rest))
  = (Sha1.byte_to_Z b0 * 256 + Sha1.byte_to_Z b1)%Z.
Proof. unfold int_from_bytes_big. simpl. lia. Qed.

(** The 16-bit number the stub reads from the digest. *)
Lemma stub_number_range (image_bytes : list byte) :
  (0 <= int_from_bytes_big (firstn 2 (Sha1.digest image_bytes)) <= 65535)%Z.
Proof.
  destruct (digest_two_bytes image_bytes) as (b0 & b1 & rest & E).
  rewrite E, int_from_bytes_big_2.
  pose proof (byte_to_Z_range b0). pose proof (byte_to_Z_range b1). lia.
Qed.

Lemma score_range (n : Z) :
  (0 <= n <= 65535)%Z -> 0 <= inject_Z n / 65535 <= 1.
Proof.
  intros [H0 H1]. split.
  - apply Qle_shift_div_l; [reflexivity | ].
    rewrite Qmult_0_l. change 0 with (inject_Z 0). now rewrite <- Zle_Qle.
  - apply Qle_shift_div_r; [reflexivity | ].
    rewrite Qmult_1_l. change 65535 with (inject_Z 65535).
    now rewrite <- Zle_Qle.
Qed.

(** The three branches of [_predict_stub], by the score. *)
Lemma _predict_stub_cases (self : ModelService) (image_bytes : list byte) :
  let score :=
    inject_Z (int_from_bytes_big (firstn 2 (Sha1.digest image_bytes)))
    / 65535 in
  let v := _predict_stub self image_bytes in
  (7 # 10 < score ->
     v = {| label := "helmet"; confidence := round score 3 |}) /\
  (score < 3 # 10 ->
     v = {| label := "no_helmet"; confidence := round (1 - score) 3 |}) /\
  (3 # 10 <= score <= 7 # 10 ->
     v = {| label := "uncertain"; confidence := round (1 # 2) 3 |}).
Proof.
  intros score v. subst v. unfold _predict_stub. fold score.
  destruct (Qltb (7 # 10) score) eqn:E1;
    [apply Qltb_lt in E1 | apply Qltb_ge in E1];
    (destruct (Qltb score (3 # 10)) eqn:E2;
     [apply Qltb_lt in E2 | apply Qltb_ge in E2]);
    repeat split; intros; try reflexivity; exfalso; lra.
Qed.

Lemma _predict_stub_valid (self : ModelService) (image_bytes : list byte) :
  valid_Verdict (_predict_stub self image_bytes).
Proof.
  pose proof (score_range _ (stub_number_range image_bytes)) as Hs.
  unfold valid_Verdict, valid_label, _predict_stub.
  set (score := inject_Z _ / 65535) in *.
  destruct (Qltb (7 # 10) score); [ | destruct (Qltb score (3 # 10))];
    cbn [label confidence]; (split; [tauto | ]).
  - apply round3_unit_interval. lra.
  - apply round3_unit_interval. lra.
  - exists 500%Z. split; [lia | reflexivity].
Qed.

End Stub.

(** ** Properties of the aggregation *)

Section Aggregation.

Local Open Scope Q_scope.

Lemma fold_left_Qplus_acc (l : list Q) (a : Q) :
  fold_left Qplus l a == a + fold_right Qplus 0 l.
Proof.
  revert a. induction l as [ | x l IH]; intros a; simpl.
  - lra.
  - rewrite IH. lra.
Qed.

(** Python's left-to-right [sum] is the sum of the elements. *)
Lemma sum_fold_right (l : list Q) : sum l == fold_right Qplus 0 l.
Proof. unfold sum. rewrite fold_left_Qplus_acc. lra. Qed.

Lemma fold_right_Qplus_range (l : list Q) :
  Forall in_unit_interval l ->
  0 <= fold_right Qplus 0 l <= inject_Z (Z.of_nat (List.length l)).
Proof.
  induction 1 as [ | x l [Hx0 Hx1] _ IH].
  - simpl. split; apply Qle_refl.
  - cbn [fold_right List.length]. rewrite Nat2Z.inj_succ.
    unfold Z.succ. rewrite inject_Z_plus.
    change (inject_Z 1) with 1. lra.
Qed.

Lemma mean_range (x : Q) (l : list Q) :
  Forall in_unit_interval (x :: l) ->
  0 <= sum (x :: l) / inject_Z (Z.of_nat (List.length (x :: l))) <= 1.
Proof.
  intros H. pose proof (fold_right_Qplus_range _ H) as [H0 H1].
  rewrite <- sum_fold_right in H0, H1.
  assert (Hn : 0 < inject_Z (Z.of_nat (List.length (x :: l)))).
  { change 0 with (inject_Z 0). rewrite <- Zlt_Qlt. simpl. lia. }
  split.
  - apply Qle_shift_div_l; [exact Hn | lra].
  - apply Qle_shift_div_r; [exact Hn | lra].
Qed.

(** The label of the aggregation, read off the counts. *)
Lemma aggregate_label (classes_raw : list string) (conf_scores : list Q) :
  label (aggregate classes_raw conf_scores) =
  if (0 <? person_count classes_raw)%Z then
    if (0 <? violation_count classes_raw)%Z then "no_helmet"%string
    else "helmet"%string
  else "uncertain"%string.
Proof. reflexivity. Qed.

(** The confidence of the aggregation, which the class names do not
    enter. *)
Lemma aggregate_confidence (classes_raw : list string)
    (conf_scores : list Q) :
  confidence (aggregate classes_raw conf_scores) =
  round match conf_scores with
        | [] => 1 # 2
        | _ => sum conf_scores
               / inject_Z (Z.of_nat (List.length conf_scores))
        end 3.
Proof. reflexivity. Qed.

Lemma aggregate_valid_label (classes_raw : list string)
    (conf_scores : list Q) :
  valid_label (label (aggregate classes_raw conf_scores)).
Proof.
  rewrite aggregate_label. unfold valid_label.
  destruct (0 <? person_count classes_raw)%Z;
    [destruct (0 <? violation_count classes_raw)%Z | ]; tauto.
Qed.


Lemma aggregate_valid (classes_raw : list string) (conf_scores : list Q) :
  Forall in_unit_interval conf_scores ->
  valid_Verdict (aggregate classes_raw conf_scores).
Proof.
  intros H. split; [apply aggregate_valid_label | ].
  rewrite aggregate_confidence.
  destruct conf_scores as [ | x l].
  - exists 500%Z. split; [lia | reflexivity].
  - apply round3_unit_interval. now apply mean_range.
Qed.

End Aggregation.

(** ** The label decision and the normalization *)

Section Labels.

Local Open Scope Z_scope.
Local Open Scope string_scope.

Lemma person_count_cons (c : string) (classes_raw : list string) :
  person_count (c :: classes_raw) =
  (if string_dec (normalize c) "person" then 1 else 0)
  + person_count classes_raw.
Proof. unfold person_count. simpl. apply count_cons. Qed.

Lemma helmet_count_cons (c : string) (classes_raw : list string) :
  helmet_count (c :: classes_raw) =
  (if string_dec (normalize c) "helmet" then 1 else 0)
  + helmet_count classes_raw.
Proof. unfold helmet_count. simpl. apply count_cons. Qed.

Lemma helmet_count_nonneg (classes_raw : list string) :
  0 <= helmet_count classes_raw.
Proof. apply count_nonneg. Qed.

Lemma person_count_nonneg (classes_raw : list string) :
  0 <= person_count classes_raw.
Proof. apply count_nonneg. Qed.

(** C1: for every list of detections the label of the aggregated verdict
    is decided by the normalized counts: "uncertain" when person_count is
    0; "no_helmet" when person_count exceeds helmet_count, which is when
    violation_count = max(person_count - helmet_count, 0) is positive;
    "helmet" when person_count is positive and at most helmet_count. *)
Theorem aggregate_label_by_counts (classes_raw : list string)
    (conf_scores : list Q) :
  let v := aggregate classes_raw conf_scores in
  let person_count := person_count classes_raw in
  let helmet_count := helmet_count classes_raw in
  let violation_count := Z.max (person_count - helmet_count) 0 in
  (person_count = 0 -> label v = "uncertain") /\
  (person_count > helmet_count ->
     violation_count > 0 /\ label v = "no_helmet") /\
  (person_count > 0 -> person_count <= helmet_count ->
     violation_count = 0 /\ label v = "helmet").
Proof.
  cbv zeta. rewrite aggregate_label. unfold violation_count.
  pose proof (helmet_count_nonneg classes_raw) as Hh.
  set (p := person_count classes_raw) in *.
  set (h := helmet_count classes_raw) in *.
  destruct (Z.ltb_spec 0 p) as [Hp | Hp];
    [destruct (Z.ltb_spec 0 (Z.max (p - h) 0)) as [Hv | Hv] | ];
    repeat split; intros; solve [reflexivity | lia].
Qed.

Ltac decide_strings :=
  repeat match goal with
         | |- context [string_dec ?a ?b] =>
             destruct (string_dec a b);
             try discriminate; try contradiction
         end.

Lemma lower_ascii_idempotent (a : ascii) :
  lower_ascii (lower_ascii a) = lower_ascii a.
Proof.
  destruct a as [[] [] [] [] [] [] [] []]; reflexivity.
Qed.

Lemma lower_idempotent (s : string) : lower (lower s) = lower s.
Proof.
  induction s as [ | a s IH]; simpl; [reflexivity | ].
  now rewrite lower_ascii_idempotent, IH.
Qed.

(** C4: the raw class label of a detection is normalized on its
    lower-cased form, in this order: exactly "head" or "person" gives
    "person"; otherwise a label that contains "helmet" gives "helmet";
    otherwise the category is the lower-cased label itself, which is
    counted neither in person_count nor in helmet_count. *)
Theorem normalize_precedence (c : string) (classes_raw : list string) :
  let c_lower := lower c in
  (c_lower = "head" \/ c_lower = "person" ->
     normalize c = "person" /\
     person_count (c :: classes_raw) = person_count classes_raw + 1 /\
     helmet_count (c :: classes_raw) = helmet_count classes_raw) /\
  (c_lower <> "head" -> c_lower <> "person" ->
   substring_of "helmet" c_lower ->
     normalize c = "helmet" /\
     person_count (c :: classes_raw) = person_count classes_raw /\
     helmet_count (c :: classes_raw) = helmet_count classes_raw + 1) /\
  (c_lower <> "head" -> c_lower <> "person" ->
   ~ substring_of "helmet" c_lower ->
     normalize c = c_lower /\
     person_count (c :: classes_raw) = person_count classes_raw /\
     helmet_count (c :: classes_raw) = helmet_count classes_raw) /\
  (forall c', lower c' = c_lower -> normalize c' = normalize c).
Proof.
  cbv zeta. rewrite person_count_cons, helmet_count_cons.
  repeat match goal with |- _ /\ _ => split end.
  - intros H. rewrite (normalize_person c H). decide_strings.
    repeat split; lia.
  - intros N1 N2 H. apply contains_iff in H.
    rewrite (normalize_helmet c N1 N2 H). decide_strings.
    repeat split; lia.
  - intros N1 N2 H.
    assert (Hc : contains "helmet" (lower c) = false).
    { apply not_true_iff_false. now rewrite contains_iff. }
    rewrite (normalize_other c N1 N2 Hc).
    assert (N3 : lower c <> "helmet").
    { intros E. apply H. exists "", "". now rewrite E. }
    decide_strings. repeat split; lia.
  - intros c' E. unfold normalize. now rewrite E.
Qed.

End Labels.

(** ** Confidence of the two prediction paths *)

Section Confidence.

Local Open Scope Q_scope.

(** C2: for every byte sequence the stub takes the first two bytes of the
    SHA-1 digest as a big-endian unsigned 16-bit integer, divides it by
    65535 to get the score, and returns "helmet" with confidence score
    when score > 0.7, "no_helmet" with confidence 1 - score when
    score < 0.3, and "uncertain" with confidence 0.5 otherwise, the
    confidence rounded to three decimals. *)
Theorem _predict_stub_spec (self : ModelService) (image_bytes : list byte) :
  exists (b0 b1 : byte) (rest : list byte),
    Sha1.digest image_bytes = b0 :: b1 :: rest /\
    let n := (Sha1.byte_to_Z b0 * 256 + Sha1.byte_to_Z b1)%Z in
    let score := inject_Z n / 65535 in
    let v := _predict_stub self image_bytes in
    (0 <= n <= 65535)%Z /\
    (7 # 10 < score ->
       v = {| label := "helmet"; confidence := round score 3 |}) /\
    (score < 3 # 10 ->
       v = {| label := "no_helmet"; confidence := round (1 - score) 3 |}) /\
    (3 # 10 <= score <= 7 # 10 ->
       v = {| label := "uncertain"; confidence := round (1 # 2) 3 |} /\
       confidence v == 1 # 2) /\
    three_decimals (confidence v).
Proof.
  destruct (digest_two_bytes image_bytes) as (b0 & b1 & rest & E).
  exists b0, b1, rest. split; [exact E | ].
  pose proof (stub_number_range image_bytes) as Hn.
  pose proof (_predict_stub_cases self image_bytes) as Hc.
  pose proof (_predict_stub_valid self image_bytes) as [_ (k & _ & Hk)].
  rewrite E, int_from_bytes_big_2 in Hn, Hc.
  cbv zeta in *. destruct Hc as (H1 & H2 & H3).
  split; [exact Hn | ].
  split; [exact H1 | ].
  split; [exact H2 | ].
  split; [ | now exists k].
  intros H. split; [now apply H3 | ].
  rewrite (H3 H). reflexivity.
Qed.

(** C10: the confidence of a stub verdict is exactly 0.5 on the
    "uncertain" branch, and on the other two branches it is the rounding
    of a number above 0.7 (the score, or 1 - score) and so at least 0.7;
    no stub verdict has a confidence strictly between 0.5 and 0.7. *)
Theorem _predict_stub_confidence_gap (self : ModelService)
    (image_bytes : list byte) :
  let score :=
    inject_Z (int_from_bytes_big (firstn 2 (Sha1.digest image_bytes)))
    / 65535 in
  let v := _predict_stub self image_bytes in
  ((label v = "uncertain"%string /\ confidence v == 1 # 2) \/
   (label v = "helmet"%string /\ 7 # 10 < score /\
    confidence v = round score 3 /\ 7 # 10 <= confidence v) \/
   (label v = "no_helmet"%string /\ 7 # 10 < 1 - score /\
    confidence v = round (1 - score) 3 /\ 7 # 10 <= confidence v)) /\
  ~ (1 # 2 < confidence v < 7 # 10).
Proof.
  cbv zeta. unfold _predict_stub.
  set (score := inject_Z _ / 65535).
  assert (R : forall x, 7 # 10 < x -> 7 # 10 <= round x 3).
  { intros x Hx. apply Qle_trans with (700 # 1000); [discriminate | ].
    apply round3_ge. apply Qle_trans with (7 # 10); [discriminate | ].
    now apply Qlt_le_weak. }
  destruct (Qltb (7 # 10) score) eqn:E1;
    [apply Qltb_lt in E1 | apply Qltb_ge in E1;
     destruct (Qltb score (3 # 10)) eqn:E2;
     [apply Qltb_lt in E2 | apply Qltb_ge in E2]];
    cbn [label confidence].
  - pose proof (R _ E1). split; [right; left; tauto | lra].
  - assert (E3 : 7 # 10 < 1 - score) by lra.
    pose proof (R _ E3). split; [right; right; tauto | lra].
  - pose proof round3_half as Hh.
    split; [left; split; [reflexivity | exact Hh] | lra].
Qed.

(** C7: every verdict of either prediction path (the aggregation of the
    model path, or the stub) has one of the three labels and a confidence
    in [0,1] with three decimals, provided the score of each input
    detection is in [0,1]. *)
Theorem verdict_invariant (self : ModelService)
    (classes_raw : list string) (conf_scores : list Q)
    (image_bytes : list byte) :
  Forall in_unit_interval conf_scores ->
  valid_Verdict (aggregate classes_raw conf_scores) /\
  valid_Verdict (_predict_stub self image_bytes).
Proof.
  intros H. split.
  - now apply aggregate_valid.
  - apply _predict_stub_valid.
Qed.

End Confidence.

(** ** The service: fallback, lookup and loading *)

Section Service.

Local Open Scope Z_scope.


Lemma predict_absent (env : Env) (self : ModelService)
    (image_bytes : list byte) :
  model self = None ->
  predict env self image_bytes = _predict_stub self image_bytes.
Proof. unfold predict. now intros ->. Qed.

Lemma predict_raise (env : Env) (self : ModelService) (m : YOLO)
    (image_bytes : list byte) (e : exn) :
  model self = Some m ->
  yolo_body env self m image_bytes = raise e ->
  predict env self image_bytes = _predict_stub self image_bytes.
Proof.
  unfold predict, _predict_with_yolo. now intros -> ->.
Qed.

Lemma predict_ret (env : Env) (self : ModelService) (m : YOLO)
    (image_bytes : list byte) (v : Verdict) :
  model self = Some m ->
  yolo_body env self m image_bytes = ret v ->
  predict env self image_bytes = v.
Proof.
  unfold predict, _predict_with_yolo. now intros -> ->.
Qed.



Lemma getitem_nth {A} (l : list A) (i : Z) :
  0 <= i < Z.of_nat (List.length l) ->
  exists a, nth_error l (Z.to_nat i) = Some a /\ getitem l i = ret a.
Proof.
  intros H. unfold getitem.
  destruct (Z.ltb_spec i 0); [lia | ].
  destruct (Z.ltb_spec i 0); [lia | ].
  destruct (Z.leb_spec (Z.of_nat (List.length l)) i); [lia | ].
  cbn [orb].
  destruct (nth_error l (Z.to_nat i)) as [a | ] eqn:E.
  - now exists a.
  - apply nth_error_None in E. lia.
Qed.

Lemma getitem_out_of_range {A} (l : list A) (i : Z) :
  i < - Z.of_nat (List.length l) -> getitem l i = raise IndexError.
Proof.
  intros H. unfold getitem.
  destruct (Z.ltb_spec i 0); [ | lia].
  destruct (Z.ltb_spec (i + Z.of_nat (List.length l)) 0); [ | lia].
  reflexivity.
Qed.

(** C8, amended: for every class index [i >= 0] and name table of length
    [n], the raw class label is the entry [names[i]] when [i < n] and the
    string [str(i)] when [i >= n], and the lookup raises nothing. *)
Theorem class_raw_nonneg (names : list string) (i : Z) :
  0 <= i ->
  (i < Z.of_nat (List.length names) ->
     exists s, nth_error names (Z.to_nat i) = Some s /\
               class_raw names i = ret s) /\
  (Z.of_nat (List.length names) <= i -> class_raw names i = ret (str i)) /\
  (exists s, class_raw names i = ret s).
Proof.
  intros Hi. unfold class_raw.
  destruct (Z.ltb_spec i (Z.of_nat (List.length names))) as [Hlt | Hge].
  - destruct (getitem_nth names i (conj Hi Hlt)) as (s & Hs & Hg).
    repeat split; [now exists s | lia | now exists s].
  - repeat split; [lia | now exists (str i)].
Qed.

(** A negative index passes the guard of line 73: Python counts it from
    the end of the table, and raises [IndexError] below [-n]. *)
Lemma class_raw_negative (names : list string) (i : Z) :
  i < - Z.of_nat (List.length names) ->
  class_raw names i = raise IndexError.
Proof.
  intros H. unfold class_raw.
  destruct (Z.ltb_spec i (Z.of_nat (List.length names))); [ | lia].
  now apply getitem_out_of_range.
Qed.

(** Loading: the handle is absent after every failure but one. *)
Lemma _load_model_import_failure (env : Env) (self : ModelService)
    (e : exn) :
  model self = None ->
  import_ultralytics env = raise e ->
  model (_load_model env self) = None.
Proof.
  intros Hm Hi. unfold _load_model, load_body. rewrite Hi.
  destruct e; cbn; exact Hm || reflexivity.
Qed.

Lemma _load_model_constructor_failure (env : Env) (self : ModelService)
    (e : exn) :
  model self = None ->
  YOLO_ env (weights_path self) = raise e ->
  model (_load_model env self) = None.
Proof.
  intros Hm Hc. unfold _load_model, load_body.
  destruct (import_ultralytics env) as [e' | []].
  - destruct e'; cbn; exact Hm || reflexivity.
  - rewrite Hc. destruct e; cbn; exact Hm || reflexivity.
Qed.

Lemma _load_model_names_failure (env : Env) (self : ModelService)
    (m : YOLO) (e : exn) :
  import_ultralytics env = ret tt ->
  YOLO_ env (weights_path self) = ret m ->
  model_names m = raise e ->
  model (_load_model env self)
  = match e with ImportError => Some m | _ => None end.
Proof.
  intros Hi Hc Hn. unfold _load_model, load_body.
  rewrite Hi. cbn. rewrite Hc. cbn. rewrite Hn.
  destruct e; reflexivity.
Qed.

Lemma _load_model_success (env : Env) (self : ModelService) (m : YOLO)
    (ns : option (list string)) :
  import_ultralytics env = ret tt ->
  YOLO_ env (weights_path self) = ret m ->
  model_names m = ret ns ->
  model (_load_model env self) = Some m.
Proof.
  intros Hi Hc Hn. unfold _load_model, load_body.
  rewrite Hi. cbn. rewrite Hc. cbn. now rewrite Hn.
Qed.

(** C9: the load attempt of [ModelService("best.onnx")] ends with an
    [ImportError] raised after [self.model] was assigned; the handler of
    [ImportError] does not reset it as the handler of [Exception] does, so
    the handle stays present and [predict] enters the model path. *)
Theorem _load_model_ImportError_keeps_handle :
  snd (load_body backend_missing_env
         {| device := "cpu"; model := None;
            weights_path := Some "best.onnx"; class_names := [] |})
  = Some ImportError /\
  model half_loaded = Some backend_missing /\
  class_names half_loaded = [] /\
  forall image_bytes,
    predict backend_missing_env half_loaded image_bytes
    = _predict_with_yolo backend_missing_env half_loaded backend_missing
        image_bytes.
Proof. repeat split. Qed.

End Service.

(** ** The stub on binary64 numbers agrees with the exact stub *)

Section Binary64Agreement.

Local Open Scope Z_scope.




(** All 65536 values of the two digest bytes, by computation. *)
Lemma binary64_agree_everywhere :
  forallb (fun b0 =>
    forallb (fun b1 =>
      Binary64.agree (Binary64.exact_at (b0 * 256 + b1))
        (Binary64.float_at (b0 * 256 + b1)))
      Binary64.bytes256)
    Binary64.bytes256 = true.
Proof. vm_compute. reflexivity. Qed.

Lemma bytes256_In (b : Z) : 0 <= b < 256 -> In b Binary64.bytes256.
Proof.
  intros H. unfold Binary64.bytes256. apply in_map_iff.
  exists (Z.to_nat b). split; [lia | ]. apply in_seq. lia.
Qed.

Lemma binary64_agree_bytes (b0 b1 : Z) :
  In b0 Binary64.bytes256 -> In b1 Binary64.bytes256 ->
  Binary64.agree (Binary64.exact_at (b0 * 256 + b1))
    (Binary64.float_at (b0 * 256 + b1)) = true.
Proof.
  intros H0 H1.
  pose proof (proj1 (forallb_forall _ _) binary64_agree_everywhere b0 H0)
    as A.
  exact (proj1 (forallb_forall _ _) A b1 H1).
Qed.

Lemma binary64_agree_at (n : Z) :
  0 <= n <= 65535 ->
  Binary64.agree (Binary64.exact_at n) (Binary64.float_at n) = true.
Proof.
  intros H.
  assert (E : n = n / 256 * 256 + n mod 256).
  { rewrite (Z.div_mod n 256) at 1; lia. }
  rewrite E. apply binary64_agree_bytes; apply bytes256_In.
  - split; [apply Z.div_pos; lia | ].
    apply Z.div_lt_upper_bound; lia.
  - apply Z.mod_pos_bound. lia.
Qed.

(** X12: on every byte sequence the stub run on binary64 floats returns
    the label of the exact stub, and as confidence the float nearest to its
    three decimals. *)
Theorem binary64_stub_agrees (self : ModelService)
    (image_bytes : list byte) :
  let v := _predict_stub self image_bytes in
  let w := Binary64._predict_stub image_bytes in
  fst w = label v /\
  snd w = Binary64.of_decimal (confidence v).
Proof.
  pose proof (binary64_agree_at _ (stub_number_range image_bytes)) as A.
  change (Binary64.exact_at _) with (_predict_stub self image_bytes) in A.
  change (Binary64.float_at _) with (Binary64._predict_stub image_bytes) in A.
  unfold Binary64.agree in A.
  apply andb_true_iff in A as [A1 A2].
  apply String.eqb_eq in A1. apply Leibniz.eqb_spec in A2.
  cbv zeta. now split.
Qed.

End Binary64Agreement.

(** ** Examples *)

Section Examples.

Local Open Scope Q_scope.
Local Open Scope string_scope.

(** [predict_stub(b"")], pinned. *)
Example _predict_stub_empty :
  _predict_stub stub_only []
  = {| label := "helmet"; confidence := 852 # 1000 |}.
Proof. vm_compute. reflexivity. Qed.

#[warnings="-inexact-float"]
Example binary64_predict_stub_empty :
  Binary64._predict_stub [] = ("helmet", 0.852%float).
Proof. vm_compute. reflexivity. Qed.

(** [round(2.675, 2)] is 2.67: the float is below the decimal tie;
    [round(0.0625, 3)] is a true tie and goes to the even 0.062. *)
#[warnings="-inexact-float"]
Example binary64_round_below_tie :
  Binary64.round 2.675%float 2 = 2.67%float.
Proof. vm_compute. reflexivity. Qed.

#[warnings="-inexact-float"]
Example binary64_round_tie :
  Binary64.round 0.0625%float 3 = 0.062%float.
Proof. vm_compute. reflexivity. Qed.

Example aggregate_person_and_helmet :
  aggregate ["person"; "helmet"] [9 # 10; 8 # 10]
  = {| label := "helmet"; confidence := 850 # 1000 |}.
Proof. vm_compute. reflexivity. Qed.

Example aggregate_bare_head :
  aggregate ["head"] [6 # 10]
  = {| label := "no_helmet"; confidence := 600 # 1000 |}.
Proof. vm_compute. reflexivity. Qed.

Example aggregate_helmets_without_person :
  label (aggregate ["Hard-Helmet"; "HELMETS"] [6 # 10; 7 # 10])
  = "uncertain".
Proof. vm_compute. reflexivity. Qed.

Example predict_one_head :
  predict working_env
    (fst (__init__ working_env None 42 "cpu" fresh_globals)) []
  = {| label := "no_helmet"; confidence := 600 # 1000 |}.
Proof. vm_compute. reflexivity. Qed.

Example predict_stub_only (image_bytes : list byte) :
  predict no_ultralytics stub_only image_bytes
  = _predict_stub stub_only image_bytes.
Proof. reflexivity. Qed.

(** With the half-loaded handle every request goes through the model
    path, fails there, and is answered by the stub. *)
Example predict_half_loaded (image_bytes : list byte) :
  predict backend_missing_env half_loaded image_bytes
  = _predict_stub half_loaded image_bytes.
Proof. reflexivity. Qed.

(** The name table of the result is used when it has entries, the one
    of the service otherwise; an index past the table gives its digits. *)
Example class_raw_past_the_table :
  class_raw ["helmet"; "head"] 7 = ret "7".
Proof. reflexivity. Qed.

Example class_raw_counts_from_the_end :
  class_raw ["helmet"; "head"] (-1) = ret "head".
Proof. reflexivity. Qed.

(** The [IndexError] of a lookup below the table is caught like every other
    failure of the model path. *)
Example predict_stray_index (env : Env) (image_bytes : list byte) :
  Image_open env image_bytes = ret [] ->
  predict env (set_model stub_only (Some stray_index)) image_bytes
  = _predict_stub stub_only image_bytes.
Proof.
  intros H. unfold predict, _predict_with_yolo, yolo_body. cbn [model set_model].
  now rewrite H.
Qed.

(** C8: with a table of two names the index -3 passes the guard
    [int(c) < len(names)] and the lookup [names[-3]] is out of bounds: it
    raises [IndexError] instead of giving the string "-3". *)
Lemma class_raw_negative_out_of_bounds :
  class_raw ["helmet"; "head"] (-3) = raise IndexError /\
  class_raw ["helmet"; "head"] (-3) <> ret (str (-3)).
Proof. split; [reflexivity | discriminate]. Qed.

Lemma class_raw_nonneg_witness :
  (0 <= 1)%Z /\
  ((1 < Z.of_nat (List.length ["helmet"; "head"]))%Z ->
     exists s, nth_error ["helmet"; "head"] (Z.to_nat 1) = Some s /\
               class_raw ["helmet"; "head"] 1 = ret s) /\
  ((Z.of_nat (List.length ["helmet"; "head"]) <= 1)%Z ->
     class_raw ["helmet"; "head"] 1 = ret (str 1)) /\
  (exists s, class_raw ["helmet"; "head"] 1 = ret s).
Proof.
  split; [lia | ].
  apply (class_raw_nonneg ["helmet"; "head"] 1). lia.
Defined.

Lemma verdict_invariant_witness :
  Forall in_unit_interval [9 # 10; 8 # 10] /\
  valid_Verdict (aggregate ["person"; "helmet"] [9 # 10; 8 # 10]) /\
  valid_Verdict (_predict_stub stub_only []).
Proof.
  assert (H : Forall in_unit_interval [9 # 10; 8 # 10]).
  { repeat constructor; discriminate. }
  split; [exact H | ].
  exact (verdict_invariant stub_only ["person"; "helmet"] _ [] H).
Defined.

End Examples.

(** ** Further properties of the lookup and of the model path *)

Section Lookup.

Local Open Scope Z_scope.
Local Open Scope string_scope.

Lemma label_of_index_correct (names : list string) (i : Z) :
  0 <= i -> class_raw names i = ret (label_of_index names i).
Proof.
  intros Hi. unfold class_raw, label_of_index.
  destruct (Z.ltb_spec i (Z.of_nat (List.length names))) as [Hlt | Hge].
  - destruct (getitem_nth names i (conj Hi Hlt)) as (s & Hs & ->).
    f_equal. symmetry. now apply nth_error_nth.
  - f_equal. symmetry. apply nth_overflow. lia.
Qed.

Lemma class_raw_only_IndexError (names : list string) (i : Z) (e : exn) :
  class_raw names i = raise e -> e = IndexError.
Proof.
  unfold class_raw, getitem.
  destruct (i <? Z.of_nat (List.length names))%Z; [ | discriminate].
  destruct (_ || _); [now intros [= <-] | ].
  destruct (nth_error _ _); [discriminate | now intros [= <-]].
Qed.

Lemma mapM_ret {A B} (f : A -> M B) (g : A -> B) (l : list A) :
  Forall (fun a => f a = ret (g a)) l -> mapM f l = ret (map g l).
Proof.
  induction 1 as [ | a l Ha _ IH]; [reflexivity | ].
  cbn [mapM map]. rewrite Ha. cbn. rewrite IH. reflexivity.
Qed.

(** One element that raises makes the whole comprehension raise. *)
Lemma mapM_raise {A B} (f : A -> M B) (l : list A) :
  Exists (fun a => exists e, f a = raise e) l ->
  exists e a, In a l /\ f a = raise e /\ mapM f l = raise e.
Proof.
  induction 1 as [a l [e He] | a l _ IH].
  - exists e, a. cbn [mapM]. rewrite He. repeat split. now left.
  - destruct (f a) as [e | b] eqn:Ea.
    + exists e, a. cbn [mapM]. rewrite Ea. repeat split. now left.
    + destruct IH as (e & a' & Hin & Ha' & Hm).
      exists e, a'. cbn [mapM]. rewrite Ea. cbn. rewrite Hm.
      repeat split; [now right | exact Ha'].
Qed.

End Lookup.

Section ModelPath.

Local Open Scope Z_scope.
Local Open Scope string_scope.

Lemma forall_chars_app (p : ascii -> bool) (s1 s2 : string) :
  forall_chars p (s1 ++ s2) = forall_chars p s1 && forall_chars p s2.
Proof.
  induction s1 as [ | a s1 IH]; simpl; [reflexivity | ].
  now rewrite IH, andb_assoc.
Qed.

Lemma string_of_uint_numeral (d : Decimal.uint) :
  forall_chars numeral_char (NilEmpty.string_of_uint d) = true.
Proof. induction d; simpl; auto. Qed.

Lemma str_numeral (i : Z) : forall_chars numeral_char (str i) = true.
Proof.
  unfold str, NilZero.string_of_int, NilZero.string_of_uint.
  destruct (Z.to_int i) as [d | d]; destruct d; simpl;
    auto using string_of_uint_numeral.
Qed.

Lemma lower_ascii_numeral (a : ascii) :
  numeral_char a = true -> lower_ascii a = a.
Proof.
  destruct a as [[] [] [] [] [] [] [] []]; try discriminate; reflexivity.
Qed.

Lemma lower_numeral (s : string) :
  forall_chars numeral_char s = true -> lower s = s.
Proof.
  induction s as [ | a s IH]; simpl; [reflexivity | ].
  intros H. apply andb_true_iff in H as [Ha Hs].
  now rewrite (lower_ascii_numeral a Ha), IH.
Qed.

Lemma numeral_no_helmet (s : string) :
  forall_chars numeral_char s = true -> contains "helmet" s = false.
Proof.
  intros H. apply not_true_iff_false. intros C.
  apply contains_iff in C as (pre & post & E).
  rewrite E, forall_chars_app in H.
  apply andb_true_iff in H as [_ H]. discriminate H.
Qed.

(** X2: the label [str(i)] that the lookup synthesizes for an index past
    the table is left as it is by the normalization and is counted neither
    as a person nor as a helmet. *)
Theorem str_label_not_counted (i : Z) (classes_raw : list string) :
  normalize (str i) = str i /\
  person_count (str i :: classes_raw) = person_count classes_raw /\
  helmet_count (str i :: classes_raw) = helmet_count classes_raw.
Proof.
  pose proof (str_numeral i) as Hn.
  assert (Hl : lower (str i) = str i) by now apply lower_numeral.
  assert (N1 : str i <> "head") by (intros E; rewrite E in Hn; discriminate).
  assert (N2 : str i <> "person")
    by (intros E; rewrite E in Hn; discriminate).
  assert (N3 : str i <> "helmet")
    by (intros E; rewrite E in Hn; discriminate).
  assert (E : normalize (str i) = str i).
  { rewrite <- Hl at 2. apply normalize_other; rewrite ?Hl; auto.
    now apply numeral_no_helmet. }
  rewrite person_count_cons, helmet_count_cons, E.
  destruct (string_dec (str i) "person"); [contradiction | ].
  destruct (string_dec (str i) "helmet"); [contradiction | ].
  repeat split; lia.
Qed.

(** X3: when decoding and inference succeed, the first result has boxes
    and no class index is negative, [predict] returns the aggregation of
    the looked-up labels and the scores: nothing in the model path raises. *)
Theorem predict_model_path (env : Env) (self : ModelService) (m : YOLO)
    (image_bytes : list byte) (frame : Frame) (results : Results)
    (rs : list Results) (b : Boxes) :
  model self = Some m ->
  Image_open env image_bytes = ret frame ->
  call m frame = ret (results :: rs) ->
  boxes results = Some b ->
  Forall (fun c => 0 <= int c) (cls b) ->
  predict env self image_bytes
  = aggregate
      (map (fun c => label_of_index (name_table self results) (int c))
           (cls b))
      (conf b).
Proof.
  intros Hm Hi Hc Hb Hcls.
  apply (predict_ret env self m image_bytes _ Hm).
  unfold yolo_body, bind. rewrite Hi. cbn. rewrite Hc. cbn.
  rewrite Hb.
  fold (name_table self results).
  rewrite (mapM_ret _
             (fun c => label_of_index (name_table self results) (int c))).
  - reflexivity.
  - eapply Forall_impl; [ | exact Hcls].
    intros c Hc0. now apply label_of_index_correct.
Qed.

(** X4: one class index below the table makes the lookup raise
    [IndexError], and the verdict is the stub's whatever the other boxes
    hold. *)
Theorem predict_index_below_table (env : Env) (self : ModelService)
    (m : YOLO) (image_bytes : list byte) (frame : Frame)
    (results : Results) (rs : list Results) (b : Boxes) :
  model self = Some m ->
  Image_open env image_bytes = ret frame ->
  call m frame = ret (results :: rs) ->
  boxes results = Some b ->
  Exists (fun c =>
            int c < - Z.of_nat (List.length (name_table self results)))
         (cls b) ->
  yolo_body env self m image_bytes = raise IndexError /\
  predict env self image_bytes = _predict_stub self image_bytes.
Proof.
  intros Hm Hi Hc Hb Hcls.
  assert (E : yolo_body env self m image_bytes = raise IndexError).
  { unfold yolo_body, bind. rewrite Hi. cbn. rewrite Hc. cbn.
    rewrite Hb. fold (name_table self results).
    destruct (mapM_raise
                (fun c => class_raw (name_table self results) (int c))
                (cls b)) as (e & a & _ & Ha & ->).
    - eapply Exists_impl; [ | exact Hcls].
      intros c Hlt. exists IndexError. now apply class_raw_negative.
    - now rewrite (class_raw_only_IndexError _ _ _ Ha). }
  split; [exact E | ].
  exact (predict_raise env self m image_bytes _ Hm E).
Qed.

End ModelPath.

(** ** Further properties of the aggregation and of the stub *)

Section Verdicts.

Local Open Scope Z_scope.
Local Open Scope string_scope.

Ltac string_cases :=
  repeat match goal with
         | |- context [string_dec ?a ?b] =>
             destruct (string_dec a b);
             try discriminate; try contradiction
         end.

Lemma count_Permutation (l l' : list string) (x : string) :
  Permutation l l' -> count l x = count l' x.
Proof.
  intros H. unfold count. f_equal.
  now apply (Permutation_count_occ string_dec).
Qed.

(** X5: the label of the aggregation does not depend on the order of the
    detections, nor on their scores. *)
Theorem aggregate_label_permutation (classes_raw classes_raw' : list string)
    (conf_scores conf_scores' : list Q) :
  Permutation classes_raw classes_raw' ->
  label (aggregate classes_raw conf_scores)
  = label (aggregate classes_raw' conf_scores').
Proof.
  intros H. rewrite !aggregate_label.
  unfold violation_count, person_count, helmet_count.
  pose proof (Permutation_map normalize H) as Hp.
  now rewrite (count_Permutation _ _ "person" Hp),
              (count_Permutation _ _ "helmet" Hp).
Qed.

Lemma normalize_lower_eq (c c' : string) :
  lower c = lower c' -> normalize c = normalize c'.
Proof. intros E. unfold normalize. now rewrite E. Qed.

(** X6: class names that differ only in the case of their letters give the
    same verdict. *)
Theorem aggregate_case_insensitive (classes_raw classes_raw' : list string)
    (conf_scores : list Q) :
  Forall2 (fun c c' => lower c = lower c') classes_raw classes_raw' ->
  aggregate classes_raw conf_scores = aggregate classes_raw' conf_scores.
Proof.
  intros H.
  assert (E : map normalize classes_raw = map normalize classes_raw').
  { induction H as [ | c c' l l' Hc _ IH]; [reflexivity | ].
    cbn [map]. now rewrite (normalize_lower_eq c c' Hc), IH. }
  unfold aggregate. now rewrite E.
Qed.

(** X7: what one more detection does to the label.  A helmet never turns
    a verdict that was not "no_helmet" into another one; a person never
    leaves the verdict "uncertain" and never lifts a "no_helmet"; a
    detection of any other class changes nothing. *)
Theorem aggregate_add_detection (c : string) (classes_raw : list string)
    (conf_scores conf_scores' : list Q) :
  let before := label (aggregate classes_raw conf_scores) in
  let after := label (aggregate (c :: classes_raw) conf_scores') in
  (normalize c = "helmet" -> before <> "no_helmet" -> after = before) /\
  (normalize c = "person" -> after <> "uncertain") /\
  (normalize c = "person" -> before = "no_helmet" -> after = "no_helmet") /\
  (normalize c <> "person" -> normalize c <> "helmet" -> after = before).
Proof.
  cbv zeta. rewrite !aggregate_label. unfold violation_count.
  rewrite person_count_cons, helmet_count_cons.
  pose proof (person_count_nonneg classes_raw) as Hp.
  pose proof (helmet_count_nonneg classes_raw) as Hh.
  set (p := person_count classes_raw) in *.
  set (h := helmet_count classes_raw) in *.
  repeat match goal with |- _ /\ _ => split end.
  - intros ->. string_cases.
    destruct (Z.ltb_spec 0 p);
      [destruct (Z.ltb_spec 0 (Z.max (p - h) 0)) | ].
    + intros N. now contradiction N.
    + intros _.
      destruct (Z.ltb_spec 0 (0 + p)); [ | lia].
      destruct (Z.ltb_spec 0 (Z.max (0 + p - (1 + h)) 0));
        [lia | reflexivity].
    + intros _. destruct (Z.ltb_spec 0 (0 + p)); [lia | reflexivity].
  - intros ->. string_cases.
    destruct (Z.ltb_spec 0 (1 + p)); [ | lia].
    destruct (Z.ltb_spec 0 (Z.max (1 + p - (0 + h)) 0)); discriminate.
  - intros ->. string_cases.
    destruct (Z.ltb_spec 0 p);
      [destruct (Z.ltb_spec 0 (Z.max (p - h) 0)) | ];
      try discriminate.
    intros _.
    destruct (Z.ltb_spec 0 (1 + p)); [ | lia].
    destruct (Z.ltb_spec 0 (Z.max (1 + p - (0 + h)) 0));
      [reflexivity | lia].
  - intros N1 N2. string_cases.
    now rewrite !Z.add_0_l.
Qed.

End Verdicts.

Section Numbers.

Local Open Scope Q_scope.

Lemma round_half_even_error (x : Q) :
  x - (1 # 2) <= inject_Z (round_half_even x) <= x + (1 # 2).
Proof.
  pose proof (Qfloor_le x) as Hl. pose proof (Qlt_floor x) as Hu.
  rewrite inject_Z_plus in Hu. change (inject_Z 1) with 1 in Hu.
  unfold round_half_even.
  destruct (Qcompare_spec (x - inject_Z (Qfloor x)) (1 # 2)) as [E | L | G].
  - destruct (Z.even (Qfloor x)).
    + lra.
    + rewrite inject_Z_plus. change (inject_Z 1) with 1. lra.
  - lra.
  - rewrite inject_Z_plus. change (inject_Z 1) with 1. lra.
Qed.

(** [round(x, 3)] is within half a thousandth of [x]. *)
Lemma round3_error (x : Q) :
  x - (1 # 2000) <= round x 3 <= x + (1 # 2000).
Proof.
  rewrite round3_unfold.
  pose proof (round_half_even_error (x * 1000)) as H.
  set (k := round_half_even (x * 1000)) in *.
  assert (E : k # 1000 == inject_Z k * (1 # 1000)).
  { unfold Qeq, Qmult, inject_Z. cbn [Qnum Qden]. lia. }
  rewrite E. lra.
Qed.

Lemma score_above (n : Z) : 7 # 10 < inject_Z n / 65535 <-> (45875 <= n)%Z.
Proof.
  unfold Qlt, Qdiv, Qmult, Qinv, inject_Z. cbn [Qnum Qden]. lia.
Qed.

Lemma score_below (n : Z) : inject_Z n / 65535 < 3 # 10 <-> (n <= 19660)%Z.
Proof.
  unfold Qlt, Qdiv, Qmult, Qinv, inject_Z. cbn [Qnum Qden]. lia.
Qed.

(** X8: on its "helmet" and "no_helmet" branches the confidence of the
    stub differs by at most 0.0005 from the number it rounds, the score or
    its complement. *)
Theorem _predict_stub_rounding_error (self : ModelService)
    (image_bytes : list byte) :
  let score :=
    inject_Z (int_from_bytes_big (firstn 2 (Sha1.digest image_bytes)))
    / 65535 in
  let v := _predict_stub self image_bytes in
  (label v = "helmet"%string ->
     score - (1 # 2000) <= confidence v <= score + (1 # 2000)) /\
  (label v = "no_helmet"%string ->
     1 - score - (1 # 2000) <= confidence v <= 1 - score + (1 # 2000)).
Proof.
  cbv zeta. unfold _predict_stub.
  set (score := inject_Z _ / 65535).
  destruct (Qltb (7 # 10) score); [ | destruct (Qltb score (3 # 10))];
    cbn [label confidence]; split; intros H; try discriminate H;
    apply round3_error.
Qed.

(** X9: the branch of the stub in whole numbers.  With [n] the 16-bit
    number read from the digest, the label is "helmet" exactly when
    [n >= 45875], "no_helmet" exactly when [n <= 19660], and "uncertain"
    in between. *)
Theorem _predict_stub_thresholds (self : ModelService)
    (image_bytes : list byte) :
  let n := int_from_bytes_big (firstn 2 (Sha1.digest image_bytes)) in
  let v := _predict_stub self image_bytes in
  (label v = "helmet"%string <-> (45875 <= n)%Z) /\
  (label v = "no_helmet"%string <-> (n <= 19660)%Z) /\
  (label v = "uncertain"%string <-> (19660 < n < 45875)%Z).
Proof.
  cbv zeta. unfold _predict_stub.
  set (n := int_from_bytes_big _).
  destruct (Qltb (7 # 10) (inject_Z n / 65535)) eqn:E1;
    [apply Qltb_lt, score_above in E1
    | apply not_true_iff_false in E1; rewrite Qltb_lt, score_above in E1;
      destruct (Qltb (inject_Z n / 65535) (3 # 10)) eqn:E2;
      [apply Qltb_lt, score_below in E2
      | apply not_true_iff_false in E2;
        rewrite Qltb_lt, score_below in E2]];
    cbn [label]; repeat split; intros;
    try discriminate; try reflexivity; lia.
Qed.

End Numbers.

(** ** Further properties of loading *)

Section Loading.

Local Open Scope string_scope.

(** The outcomes of the load attempt, case by case. *)
Lemma __init___model_cases (env : Env) (path : option string) (seed : Z)
    (dev : string) (g : Globals) :
  let self := fst (__init__ env path seed dev g) in
  match model self with
  | Some m =>
      import_ultralytics env = ret tt /\
      YOLO_ env (weights_path self) = ret m /\
      (model_names m = raise ImportError /\ class_names self = [] \/
       exists ns, model_names m = ret ns /\
                  class_names self
                  = match ns with Some l => l | None => [] end)
  | None =>
      (exists e, import_ultralytics env = raise e) \/
      (exists e, YOLO_ env (weights_path self) = raise e) \/
      (exists m e, YOLO_ env (weights_path self) = ret m /\
                   model_names m = raise e /\ e <> ImportError)
  end.
Proof.
  cbv zeta. unfold __init__, _load_model, load_body. cbn [fst].
  set (p := match path with
            | Some EmptyString | None => None
            | Some p => Some p
            end).
  destruct (import_ultralytics env) as [e | []] eqn:Ei.
  - destruct e; cbn; left; eauto.
  - cbn [try_except set_model weights_path model].
    destruct (YOLO_ env p) as [e | m] eqn:Ec.
    + destruct e; cbn; rewrite Ec; right; left; eauto.
    + destruct (model_names m) as [e | ns] eqn:En.
      * destruct e; cbn; rewrite Ec;
          try (right; right; exists m; eexists; repeat split;
               [exact En | discriminate]).
        repeat split. left. now split.
      * cbn. rewrite Ec. repeat split. right. now exists ns.
Qed.

(** X10: the handle after construction.  It is present exactly when the
    import and the constructor succeeded and reading [names] either
    returned or raised [ImportError]; the name table of the service is then
    the one read, and empty when none was read.  The patch of [torch.load]
    has no part in it. *)
Theorem __init___handle (env : Env) (path : option string) (seed : Z)
    (dev : string) (g : Globals) :
  let self := fst (__init__ env path seed dev g) in
  match model self with
  | Some m =>
      import_ultralytics env = ret tt /\
      YOLO_ env (weights_path self) = ret m /\
      (model_names m = raise ImportError /\ class_names self = [] \/
       exists ns, model_names m = ret ns /\
                  class_names self
                  = match ns with Some l => l | None => [] end)
  | None =>
      (exists e, import_ultralytics env = raise e) \/
      (exists e, YOLO_ env (weights_path self) = raise e) \/
      (exists m e, YOLO_ env (weights_path self) = ret m /\
                   model_names m = raise e /\ e <> ImportError)
  end.
Proof. exact (__init___model_cases env path seed dev g). Qed.

(** X11: when the import or the constructor raises, or reading [names]
    raises anything but [ImportError], the service has no handle and every
    prediction is the stub's. *)
Theorem failed_load_predicts_stub (env : Env) (path : option string)
    (seed : Z) (dev : string) (g : Globals) (image_bytes : list byte) :
  let self := fst (__init__ env path seed dev g) in
  (exists e, import_ultralytics env = raise e) \/
  (exists e, YOLO_ env (weights_path self) = raise e) \/
  (exists m e, YOLO_ env (weights_path self) = ret m /\
               model_names m = raise e /\ e <> ImportError) ->
  model self = None /\
  predict env self image_bytes = _predict_stub self image_bytes.
Proof.
  cbv zeta. intros H.
  assert (Hm : model (fst (__init__ env path seed dev g)) = None).
  { pose proof (__init___model_cases env path seed dev g) as C.
    cbv zeta in C.
    destruct (model (fst (__init__ env path seed dev g))) as [m | ];
      [ | reflexivity].
    destruct C as (Ci & Cc & Cn).
    destruct H as [[e He] | [[e He] | (m' & e & Hc & Hn & Hne)]].
    - rewrite Ci in He. discriminate.
    - rewrite Cc in He. discriminate.
    - rewrite Cc in Hc. injection Hc as <-.
      destruct Cn as [[Cn _] | (ns & Cn & _)]; rewrite Cn in Hn.
      + injection Hn as <-. now contradiction Hne.
      + discriminate. }
  split; [exact Hm | now apply predict_absent].
Qed.

End Loading.

(** ** The confidence of the stub as a float *)

Section Binary64Range.

Local Open Scope Z_scope.

Lemma _predict_stub_thousandths (self : ModelService)
    (image_bytes : list byte) :
  exists k : Z,
    confidence (_predict_stub self image_bytes) = (k # 1000)%Q /\
    (k = 500 \/ 700 <= k <= 1000).
Proof.
  pose proof (score_range _ (stub_number_range image_bytes)) as [H0 H1].
  unfold _predict_stub.
  set (score := (inject_Z _ / 65535)%Q) in *.
  destruct (Qltb (7 # 10) score) eqn:E1;
    [apply Qltb_lt in E1
    | destruct (Qltb score (3 # 10)) eqn:E2; [apply Qltb_lt in E2 | ]];
    cbn [confidence].
  - exists (round_half_even (score * 1000)). split; [reflexivity | right].
    split.
    + apply round_half_even_ge. change (inject_Z 700) with 700%Q. lra.
    + apply round_half_even_le. change (inject_Z 1000) with 1000%Q. lra.
  - exists (round_half_even ((1 - score) * 1000)).
    split; [reflexivity | right]. split.
    + apply round_half_even_ge. change (inject_Z 700) with 700%Q. lra.
    + apply round_half_even_le. change (inject_Z 1000) with 1000%Q. lra.
  - exists 500. split; [reflexivity | now left].
Qed.

(** The floats nearest to 0.700, 0.701, ..., 1.000, by computation. *)
#[warnings="-inexact-float"]
Lemma binary64_thousandths_range :
  forallb (fun k =>
             (0.7 <=? Binary64.of_decimal (k # 1000))%float
             && (Binary64.of_decimal (k # 1000) <=? 1)%float)
          (map Z.of_nat (seq 700 301)) = true.
Proof. vm_compute. reflexivity. Qed.

(** X13: as a float, the confidence of a stub verdict is 0.5, or lies
    between the floats 0.7 and 1. *)
#[warnings="-inexact-float"]
Theorem binary64_stub_confidence_range (image_bytes : list byte) :
  let c := snd (Binary64._predict_stub image_bytes) in
  c = 0.5%float \/
  ((0.7 <=? c)%float = true /\ (c <=? 1)%float = true).
Proof.
  cbv zeta.
  pose proof (binary64_agree_at _ (stub_number_range image_bytes)) as A.
  change (Binary64.float_at _) with (Binary64._predict_stub image_bytes) in A.
  unfold Binary64.agree in A. apply andb_true_iff in A as [_ A].
  apply Leibniz.eqb_spec in A. rewrite A.
  change (Binary64.exact_at _)
    with (_predict_stub stub_only image_bytes).
  destruct (_predict_stub_thousandths stub_only image_bytes)
    as (k & -> & [-> | Hk]).
  - left. reflexivity.
  - right. apply andb_true_iff.
    pose proof binary64_thousandths_range as R.
    rewrite forallb_forall in R. apply R.
    apply in_map_iff. exists (Z.to_nat k). split; [lia | ].
    apply in_seq. lia.
Qed.

End Binary64Range.

(** ** A frame without detections *)

Section NoDetection.

Local Open Scope string_scope.

(** X14: when the detector runs and its first result holds no box, the
    verdict is "uncertain" with confidence 0.5: it comes from the
    aggregation, not from the stub. *)
Theorem predict_no_detection (env : Env) (self : ModelService) (m : YOLO)
    (image_bytes : list byte) (frame : Frame) (results : Results)
    (rs : list Results) :
  model self = Some m ->
  Image_open env image_bytes = ret frame ->
  call m frame = ret (results :: rs) ->
  boxes results = Some {| cls := []; conf := [] |} ->
  predict env self image_bytes
  = {| label := "uncertain"; confidence := (500 # 1000)%Q |}.
Proof.
  intros Hm Hi Hc Hb.
  apply (predict_ret env self m image_bytes _ Hm).
  unfold yolo_body, bind. rewrite Hi. cbn. rewrite Hc. cbn.
  rewrite Hb. reflexivity.
Qed.

End NoDetection.

(** ** The further properties on concrete inputs *)

Section Instances.

Local Open Scope string_scope.

Lemma predict_model_path_witness :
  predict working_env
    (fst (__init__ working_env None 42 "cpu" fresh_globals)) []
  = aggregate ["head"] [(3 # 5)%Q].
Proof.
  apply (predict_model_path working_env
           (fst (__init__ working_env None 42 "cpu" fresh_globals))
           one_head [] []
           {| names := Some ["helmet"; "head"];
              boxes := Some {| cls := [1%Q]; conf := [(3 # 5)%Q] |} |}
           []
           {| cls := [1%Q]; conf := [(3 # 5)%Q] |});
    try reflexivity.
  repeat constructor. discriminate.
Defined.

Lemma predict_index_below_table_witness :
  yolo_body working_env (set_model stub_only (Some stray_index))
    stray_index [] = raise IndexError /\
  predict working_env (set_model stub_only (Some stray_index)) []
  = _predict_stub (set_model stub_only (Some stray_index)) [].
Proof.
  apply (predict_index_below_table working_env
           (set_model stub_only (Some stray_index)) stray_index [] []
           {| names := Some ["helmet"; "head"];
              boxes := Some {| cls := [(-3)%Q]; conf := [(3 # 5)%Q] |} |}
           []
           {| cls := [(-3)%Q]; conf := [(3 # 5)%Q] |});
    try reflexivity.
  apply Exists_cons_hd. reflexivity.
Defined.

Lemma aggregate_label_permutation_witness :
  label (aggregate ["head"; "helmet"; "head"] [(3 # 5)%Q])
  = label (aggregate ["helmet"; "head"; "head"] []).
Proof.
  apply (aggregate_label_permutation ["head"; "helmet"; "head"]
           ["helmet"; "head"; "head"]).
  apply perm_swap.
Defined.

Lemma aggregate_case_insensitive_witness :
  aggregate ["HEAD"; "Safety-Helmet"] [(3 # 5)%Q; (4 # 5)%Q]
  = aggregate ["head"; "safety-helmet"] [(3 # 5)%Q; (4 # 5)%Q].
Proof.
  apply (aggregate_case_insensitive ["HEAD"; "Safety-Helmet"]
           ["head"; "safety-helmet"]).
  repeat constructor.
Defined.

Lemma failed_load_predicts_stub_witness :
  model stub_only = None /\
  predict no_ultralytics stub_only [] = _predict_stub stub_only [].
Proof.
  apply (failed_load_predicts_stub no_ultralytics None 42 "cpu"
           fresh_globals []).
  left. exists ImportError. reflexivity.
Defined.

Lemma predict_no_detection_witness :
  predict
    {| import_ultralytics := ret tt; patch_torch_load := ret tt;
       YOLO_ := fun _ => ret one_head;
       Image_open := fun _ => ret [] |}
    (set_model stub_only
       (Some {| call := fun _ =>
                  ret [ {| names := None;
                           boxes := Some {| cls := []; conf := [] |} |} ];
                model_names := ret None |}))
    []
  = {| label := "uncertain"; confidence := (500 # 1000)%Q |}.
Proof.
  apply (predict_no_detection _ _
           {| call := fun _ =>
                ret [ {| names := None;
                         boxes := Some {| cls := []; conf := [] |} |} ];
              model_names := ret None |}
           [] []
           {| names := None; boxes := Some {| cls := []; conf := [] |} |}
           []);
    reflexivity.
Defined.

End Instances.

(** ** The confidence of the aggregation on binary64 numbers *)

Section Binary64Aggregation.

Local Open Scope string_scope.

(** The float aggregation gives the label of the exact one. *)
Lemma binary64_aggregate_label (sum : list float -> float)
    (classes_raw : list string) (conf_scores : list float)
    (scores : list Q) :
  fst (Binary64.aggregate sum classes_raw conf_scores)
  = label (aggregate classes_raw scores).
Proof. reflexivity. Qed.


(** The two summations are different functions: on 0.1, 0.2, 0.3 the
    additions from the left give the float above 0.6, the compensated ones
    the float nearest to 0.6. *)
#[warnings="-inexact-float"]
Example binary64_sums_differ :
  Binary64.sum_left [0.1; 0.2; 0.3]%float = 0x1.3333333333334p-1%float /\
  Binary64.sum_compensated [0.1; 0.2; 0.3]%float = 0.6%float.
Proof. split; vm_compute; reflexivity. Qed.



(** The scenarios of the specification, on floats. *)
#[warnings="-inexact-float"]
Example binary64_aggregate_person_and_helmet :
  Binary64.aggregate Binary64.sum_left ["person"; "helmet"] [0.9; 0.8]%float
  = ("helmet", 0.85%float) /\
  Binary64.aggregate Binary64.sum_compensated ["person"; "helmet"]
    [0.9; 0.8]%float
  = ("helmet", 0.85%float).
Proof. split; vm_compute; reflexivity. Qed.

#[warnings="-inexact-float"]
Example binary64_aggregate_bare_head :
  Binary64.aggregate Binary64.sum_left ["head"] [0.6]%float
  = ("no_helmet", 0.6%float) /\
  Binary64.aggregate Binary64.sum_compensated ["head"] [0.6]%float
  = ("no_helmet", 0.6%float).
Proof. split; vm_compute; reflexivity. Qed.

End Binary64Aggregation.
